(** * pass-gen: the password generator and the strength scorer

    A shallow embedding of [src/utils/passwordGenerator.js].

    - A JavaScript string is the list of its UTF-16 code units
      ([jsstring]).  String literals of the source that are plain ASCII
      are written as Rocq strings and turned into code units by [units].
      Messages ([Error] texts, feedback lines, level names) are never
      inspected by the code and stay Rocq strings.
    - [crypto.getRandomValues] is a stream of integers with a read
      position; the generator is written in a state monad over it and
      returns either a value or a thrown [Error].
    - JavaScript numbers are modelled exactly: counts and lengths are
      natural numbers, the score is a real number.  IEEE rounding of the
      two non-integer summands is not modelled. *)

From Stdlib Require Import List ZArith Bool String Ascii Lia.
From Stdlib Require Import Reals Lra.
Import ListNotations.

Local Open Scope Z_scope.

(** ** JavaScript strings *)

Definition jsstring := list Z.

Definition units (s : string) : jsstring :=
  map (fun a => Z.of_nat (nat_of_ascii a)) (list_ascii_of_string s).

(** [charSet[i]]: the one-unit string at index [i], or [undefined]. *)
Definition charAt (s : jsstring) (i : Z) : option Z :=
  if i <? 0 then None else nth_error s (Z.to_nat i).

(** [s += v] where [v] is a character or [undefined]; string
    concatenation turns [undefined] into its name. *)
Definition appendValue (s : jsstring) (v : option Z) : jsstring :=
  match v with
  | Some c => (s ++ [c])%list
  | None => (s ++ units "undefined")%list
  end.

(** ** The random source *)

Record Crypto := mkCrypto { entropy : nat -> Z; consumed : nat }.

Inductive completion (A : Type) : Type :=
| Return (a : A)
| Throw (message : string).
Arguments Return {A} a.
Arguments Throw {A} message.

Definition Rand (A : Type) : Type := Crypto -> A * Crypto.

Definition ret {A} (a : A) : Rand A := fun st => (a, st).

Definition bind {A B} (m : Rand A) (k : A -> Rand B) : Rand B :=
  fun st => let (a, st') := m st in k a st'.

Notation "x <- m ;; k" := (bind m (fun x => k))
  (at level 61, m at next level, right associativity).

Definition uint32 (v : Z) : Z := v mod 2 ^ 32.

(** [new Uint32Array(length)] filled by [crypto.getRandomValues]. *)
Definition getRandomValues (length : nat) : Rand (list Z) :=
  fun st =>
    (map (fun i => uint32 (entropy st (consumed st + i)%nat)) (seq 0 length),
     mkCrypto (entropy st) (consumed st + length)%nat).

(** With an empty [charSet] the remainder is [NaN] in JavaScript and the
    lookup gives [undefined]; here [Z.modulo] by [0] leaves the value
    unchanged and the lookup in the empty list gives [None] as well. *)
Definition getRandomChar (charSet : jsstring) : Rand (option Z) :=
  randomValues <- getRandomValues 1 ;;
  let randomIndex := nth 0 randomValues 0 mod Z.of_nat (List.length charSet) in
  ret (charAt charSet randomIndex).

(** ** generatePassword *)

Record Options := mkOptions {
  opt_length : option Z;
  opt_includeUppercase : option bool;
  opt_includeLowercase : option bool;
  opt_includeNumbers : option bool;
  opt_includeSymbols : option bool;
  opt_excludeSimilar : option bool;
  opt_excludeAmbiguous : option bool
}.

(** A destructuring default: used when the property is absent. *)
Definition orDefault {A} (d : A) (field : option A) : A :=
  match field with Some v => v | None => d end.

(** The locals bound by [const { length = 16, ... } = options]. *)
Definition lengthOf (options : Options) : Z :=
  orDefault 16 (opt_length options).
Definition includeUppercase (options : Options) : bool :=
  orDefault true (opt_includeUppercase options).
Definition includeLowercase (options : Options) : bool :=
  orDefault true (opt_includeLowercase options).
Definition includeNumbers (options : Options) : bool :=
  orDefault true (opt_includeNumbers options).
Definition includeSymbols (options : Options) : bool :=
  orDefault true (opt_includeSymbols options).
Definition excludeSimilar (options : Options) : bool :=
  orDefault false (opt_excludeSimilar options).
Definition excludeAmbiguous (options : Options) : bool :=
  orDefault false (opt_excludeAmbiguous options).

Definition uppercaseTable (excludeSimilar : bool) : jsstring :=
  if excludeSimilar then units "ABCDEFGHJKLMNPQRSTUVWXYZ"
  else units "ABCDEFGHIJKLMNOPQRSTUVWXYZ".

Definition lowercaseTable (excludeSimilar : bool) : jsstring :=
  if excludeSimilar then units "abcdefghijkmnopqrstuvwxyz"
  else units "abcdefghijklmnopqrstuvwxyz".

Definition numbersTable (excludeSimilar : bool) : jsstring :=
  if excludeSimilar then units "23456789" else units "0123456789".

Definition symbolsTable (excludeAmbiguous : bool) : jsstring :=
  if excludeAmbiguous then units "!@#$%^&*()_+-=[]{}|;:,.<>?"
  else units "!@#$%^&*()_+-=[]{}|;:,.<>?/~`".

(** The four [if] blocks that build [charSet]. *)
Definition buildCharSet
    (includeUppercase includeLowercase includeNumbers includeSymbols
     excludeSimilar excludeAmbiguous : bool) : jsstring :=
  let charSet := [] in
  let charSet :=
    if includeUppercase then (charSet ++ uppercaseTable excludeSimilar)%list
    else charSet in
  let charSet :=
    if includeLowercase then (charSet ++ lowercaseTable excludeSimilar)%list
    else charSet in
  let charSet :=
    if includeNumbers then (charSet ++ numbersTable excludeSimilar)%list
    else charSet in
  let charSet :=
    if includeSymbols then (charSet ++ symbolsTable excludeAmbiguous)%list
    else charSet in
  charSet.

Definition charSetOf (options : Options) : jsstring :=
  buildCharSet (includeUppercase options) (includeLowercase options)
    (includeNumbers options) (includeSymbols options)
    (excludeSimilar options) (excludeAmbiguous options).

(** [for (let i = 0; i < length; i++) password += getRandomChar(charSet)],
    with [remaining] the number of iterations still to run. *)
Fixpoint drawLoop (remaining : nat) (charSet password : jsstring)
  : Rand jsstring :=
  match remaining with
  | O => ret password
  | S remaining' =>
      c <- getRandomChar charSet ;;
      drawLoop remaining' charSet (appendValue password c)
  end.

Definition emptyCharSetMessage : string :=
  "至少需要选择一种字符类型".

Definition generatePassword (options : Options)
  : Rand (completion jsstring) :=
  let length := lengthOf options in
  let charSet := charSetOf options in
  if (List.length charSet =? 0)%nat then
    ret (Throw emptyCharSetMessage)
  else
    password <- drawLoop (Z.to_nat length) charSet [] ;;
    ret (Return password).

(** The empty object [{}]. *)
Definition noOptions : Options :=
  mkOptions None None None None None None None.



Definition constantSource (v : Z) : Crypto := mkCrypto (fun _ => v) 0.

(** [{ length: 1, includeSymbols: true, excludeAmbiguous: true }] *)
Definition oneSymbolSafe : Options :=
  mkOptions (Some 1) None None None (Some true) None (Some true).

(** [{ length: 4, excludeSimilar: true }] *)
Definition fourSimilarFree : Options :=
  mkOptions (Some 4) None None None None (Some true) None.

(** All four classes switched off. *)
Definition nothingSelected : Options :=
  mkOptions None (Some false) (Some false) (Some false) (Some false)
    None None.

(** ** calculatePasswordStrength *)

(** The four regular expressions, tested on code units. *)
Definition isLower (c : Z) : bool := (97 <=? c) && (c <=? 122).
Definition isUpper (c : Z) : bool := (65 <=? c) && (c <=? 90).
Definition isDigit (c : Z) : bool := (48 <=? c) && (c <=? 57).
Definition isOther (c : Z) : bool :=
  negb (isLower c || isUpper c || isDigit c).

Definition hasLower (password : jsstring) : bool := existsb isLower password.
Definition hasUpper (password : jsstring) : bool := existsb isUpper password.
Definition hasDigit (password : jsstring) : bool := existsb isDigit password.
Definition hasOther (password : jsstring) : bool := existsb isOther password.

(** [new Set(password)] walks the string with the string iterator, which
    yields code points: a high surrogate followed by a low surrogate comes
    out as one two-unit element, every other code unit on its own. *)
Definition isHighSurrogate (c : Z) : bool := (55296 <=? c) && (c <=? 56319).
Definition isLowSurrogate (c : Z) : bool := (56320 <=? c) && (c <=? 57343).
Definition isSurrogate (c : Z) : bool := isHighSurrogate c || isLowSurrogate c.

Fixpoint stringIterator (s : jsstring) : list jsstring :=
  match s with
  | [] => []
  | c :: rest =>
      match rest with
      | d :: rest' =>
          if isHighSurrogate c && isLowSurrogate d
          then [c; d] :: stringIterator rest'
          else [c] :: stringIterator rest
      | [] => [[c]]
      end
  end.

Definition jsstring_eq_dec : forall x y : jsstring, {x = y} + {x <> y} :=
  list_eq_dec Z.eq_dec.

(** [new Set(items).size] *)
Definition setSize (items : list jsstring) : nat :=
  List.length (nodup jsstring_eq_dec items).

Definition uniqueChars (password : jsstring) : nat :=
  setSize (stringIterator password).

Definition getCharSetSize (password : jsstring) : Z :=
  let size := 0 in
  let size := if hasLower password then size + 26 else size in
  let size := if hasUpper password then size + 26 else size in
  let size := if hasDigit password then size + 10 else size in
  let size := if hasOther password then size + 32 else size in
  size.

Local Open Scope R_scope.

Definition log2 (x : R) : R := ln x / ln 2.

Definition lengthBonus (password : jsstring) : R :=
  let n := List.length password in
  let score := 0 in
  let score := if (8 <=? n)%nat then score + 10 else score in
  let score := if (12 <=? n)%nat then score + 10 else score in
  let score := if (16 <=? n)%nat then score + 10 else score in
  let score := if (20 <=? n)%nat then score + 10 else score in
  score.

Definition classBonus (password : jsstring) : R :=
  let score := 0 in
  let score := if hasLower password then score + 10 else score in
  let score := if hasUpper password then score + 10 else score in
  let score := if hasDigit password then score + 10 else score in
  let score := if hasOther password then score + 10 else score in
  score.

Definition uniqueRatio (password : jsstring) : R :=
  INR (uniqueChars password) / INR (List.length password).

Definition uniquenessBonus (password : jsstring) : R :=
  Rmin (uniqueRatio password * 20) 20.

Definition entropyBonus (password : jsstring) : R :=
  let charSetSize := getCharSetSize password in
  let entropy := INR (List.length password) * log2 (IZR charSetSize) in
  Rmin (entropy / 10) 10.

(** The score before the final clamp, summed in the order of the source. *)
Definition rawScore (password : jsstring) : R :=
  0 + lengthBonus password + classBonus password
    + uniquenessBonus password + entropyBonus password.

Definition clampScore (score : R) : R := Rmin (Rmax score 0) 100.

Definition levelOf (score : R) : string :=
  if Rle_dec 80 score then "very-strong"%string
  else if Rle_dec 60 score then "strong"%string
  else if Rle_dec 40 score then "medium"%string
  else "weak"%string.

Definition msgLength8 : string := "密码长度至少应为 8 个字符".
Definition msgLength12 : string := "建议使用 12 个字符以上的密码".
Definition msgLowercase : string := "建议包含小写字母".
Definition msgUppercase : string := "建议包含大写字母".
Definition msgDigit : string := "建议包含数字".
Definition msgSymbol : string := "建议包含特殊字符".
Definition msgDistinct : string := "建议使用更多不同的字符".

(** [feedback.push(message)] under [if (condition)]. *)
Definition pushIf (condition : bool) (message : string)
    (feedback : list string) : list string :=
  if condition then (feedback ++ [message])%list else feedback.

Definition feedbackOf (password : jsstring) : list string :=
  let n := List.length password in
  let feedback := [] in
  let feedback := pushIf (n <? 8)%nat msgLength8 feedback in
  let feedback := pushIf (n <? 12)%nat msgLength12 feedback in
  let feedback := pushIf (negb (hasLower password)) msgLowercase feedback in
  let feedback := pushIf (negb (hasUpper password)) msgUppercase feedback in
  let feedback := pushIf (negb (hasDigit password)) msgDigit feedback in
  let feedback := pushIf (negb (hasOther password)) msgSymbol feedback in
  let feedback :=
    pushIf (if Rlt_dec (uniqueRatio password) (1 / 2) then true else false)
           msgDistinct feedback in
  feedback.

Record StrengthReport := mkReport {
  score : R;
  level : string;
  feedback : list string
}.

Definition calculatePasswordStrength (password : jsstring) : StrengthReport :=
  match password with
  | [] => mkReport 0 "weak"%string []
  | _ :: _ =>
      let score := clampScore (rawScore password) in
      mkReport score (levelOf score) (feedbackOf password)
  end.


(** The score is a whole number. *)
Definition isInteger (x : R) : Prop := exists z : Z, x = IZR z.

Local Close Scope R_scope.

(** ** Character sets named by the specification *)

Definition similarChars : jsstring := units "0O1lI".
Definition ambiguousSymbols : jsstring := units "[]{}|<>/~`".
Definition omittedSymbols : jsstring := units "/~`".

Definition memZ (c : Z) (s : jsstring) : bool := existsb (Z.eqb c) s.

(** ** Sample inputs *)

Definition eightA : jsstring := units "aaaaaaaa".
Definition abcdTimes8 : jsstring := units "abcdabcdabcdabcdabcdabcdabcdabcd".
Definition mixedThree : jsstring := units "aA!".
(** U+1F600 as its surrogate pair. *)
Definition grinningFace : jsstring := [55357; 56832].

(** ** getStrengthLabel *)

(** What [labels[level] || '弱'] evaluates to: a label text, or a member
    that the object literal inherits from [Object.prototype]. *)
Inductive LabelValue : Type :=
| Label (text : string)
| Inherited (name : string).

Definition labels : list (string * string) :=
  [ ("weak", "弱"); ("medium", "中等"); ("strong", "强");
    ("very-strong", "非常强") ]%string.

(** The property names every object literal inherits; each of them is a
    function or an object, hence truthy. *)
Definition objectPrototypeNames : list string :=
  [ "constructor"; "hasOwnProperty"; "isPrototypeOf";
    "propertyIsEnumerable"; "toLocaleString"; "toString"; "valueOf";
    "__proto__"; "__defineGetter__"; "__defineSetter__";
    "__lookupGetter__"; "__lookupSetter__" ]%string.

Fixpoint ownProperty (key : string) (table : list (string * string))
  : option string :=
  match table with
  | [] => None
  | (name, value) :: rest =>
      if String.eqb key name then Some value else ownProperty key rest
  end.

Definition getStrengthLabel (level : string) : LabelValue :=
  match ownProperty level labels with
  | Some text => if String.eqb text "" then Label "弱" else Label text
  | None =>
      if existsb (String.eqb level) objectPrototypeNames
      then Inherited level
      else Label "弱"
  end.

(** ** The component [App] *)

(** [getStrengthColor]: the [switch] on [strength.level]. *)
Definition getStrengthColor (strength : StrengthReport) : string :=
  let l := level strength in
  if String.eqb l "very-strong" then "#10b981"%string
  else if String.eqb l "strong" then "#3b82f6"%string
  else if String.eqb l "medium" then "#f59e0b"%string
  else if String.eqb l "weak" then "#ef4444"%string
  else "#6b7280"%string.

(** The state of the component that the generator and the scorer touch.
    The [copied] flag, set by [handleCopy] alone, is left out. *)
Record AppState := mkApp {
  app_password : jsstring;
  app_strength : StrengthReport;
  app_options : Options
}.

Definition initialOptions : Options :=
  mkOptions (Some 16) (Some true) (Some true) (Some true) (Some true)
    (Some false) (Some false).

Definition initialState : AppState :=
  mkApp [] (mkReport 0%R "weak"%string []) initialOptions.

(** [generateNewPassword]: the [catch] only logs, so a throw leaves the
    state as it was. *)
Definition generateNewPassword (s : AppState) : Rand AppState :=
  r <- generatePassword (app_options s) ;;
  match r with
  | Return newPassword =>
      ret (mkApp newPassword (calculatePasswordStrength newPassword)
             (app_options s))
  | Throw _ => ret s
  end.

(** The six checkbox keys. *)
Inductive FlagKey : Type :=
| IncludeUppercase | IncludeLowercase | IncludeNumbers | IncludeSymbols
| ExcludeSimilar | ExcludeAmbiguous.

(** The pairs [(key, value)] that the call sites of [handleOptionChange]
    pass: a number for 'length', a boolean for a checkbox. *)
Inductive OptionChange : Type :=
| SetLength (value : Z)
| SetFlag (key : FlagKey) (value : bool).

(** [{ ...prev, [key]: value }] *)
Definition handleOptionChange (change : OptionChange) (prev : Options)
  : Options :=
  match change with
  | SetLength v =>
      mkOptions (Some v) (opt_includeUppercase prev)
        (opt_includeLowercase prev) (opt_includeNumbers prev)
        (opt_includeSymbols prev) (opt_excludeSimilar prev)
        (opt_excludeAmbiguous prev)
  | SetFlag IncludeUppercase b =>
      mkOptions (opt_length prev) (Some b) (opt_includeLowercase prev)
        (opt_includeNumbers prev) (opt_includeSymbols prev)
        (opt_excludeSimilar prev) (opt_excludeAmbiguous prev)
  | SetFlag IncludeLowercase b =>
      mkOptions (opt_length prev) (opt_includeUppercase prev) (Some b)
        (opt_includeNumbers prev) (opt_includeSymbols prev)
        (opt_excludeSimilar prev) (opt_excludeAmbiguous prev)
  | SetFlag IncludeNumbers b =>
      mkOptions (opt_length prev) (opt_includeUppercase prev)
        (opt_includeLowercase prev) (Some b) (opt_includeSymbols prev)
        (opt_excludeSimilar prev) (opt_excludeAmbiguous prev)
  | SetFlag IncludeSymbols b =>
      mkOptions (opt_length prev) (opt_includeUppercase prev)
        (opt_includeLowercase prev) (opt_includeNumbers prev) (Some b)
        (opt_excludeSimilar prev) (opt_excludeAmbiguous prev)
  | SetFlag ExcludeSimilar b =>
      mkOptions (opt_length prev) (opt_includeUppercase prev)
        (opt_includeLowercase prev) (opt_includeNumbers prev)
        (opt_includeSymbols prev) (Some b) (opt_excludeAmbiguous prev)
  | SetFlag ExcludeAmbiguous b =>
      mkOptions (opt_length prev) (opt_includeUppercase prev)
        (opt_includeLowercase prev) (opt_includeNumbers prev)
        (opt_includeSymbols prev) (opt_excludeSimilar prev) (Some b)
  end.

(** What [parseInt] can return: [NaN], an integer, or an infinity for a
    digit string beyond the range of a double. *)
Inductive ParsedInt : Type :=
| NaN
| Int (value : Z)
| Infinity (negative : bool).

(** [Math.max(4, Math.min(128, parsed || 16))]; [NaN] and [0] are the
    falsy results. *)
Definition clampLength (parsed : ParsedInt) : Z :=
  match parsed with
  | NaN => Z.max 4 (Z.min 128 16)
  | Int 0 => Z.max 4 (Z.min 128 16)
  | Int v => Z.max 4 (Z.min 128 v)
  | Infinity false => Z.max 4 128
  | Infinity true => 4
  end.

(** [handleLengthChange], given the result of [parseInt(e.target.value)]. *)
Definition handleLengthChange (parsed : ParsedInt) (prev : Options)
  : Options :=
  handleOptionChange (SetLength (clampLength parsed)) prev.

(** What the user can do: move the slider, tick a checkbox, press the
    regenerate button. *)
Inductive Event : Type :=
| SliderMoved (parsed : ParsedInt)
| CheckboxChanged (key : FlagKey) (checked : bool)
| RegenerateClicked.

(** A change of [options] re-renders and the effect on [[options]] calls
    [generateNewPassword] with the new options; the button calls it
    directly. *)
Definition handleEvent (e : Event) (s : AppState) : Rand AppState :=
  match e with
  | SliderMoved parsed =>
      generateNewPassword
        (mkApp (app_password s) (app_strength s)
           (handleLengthChange parsed (app_options s)))
  | CheckboxChanged key checked =>
      generateNewPassword
        (mkApp (app_password s) (app_strength s)
           (handleOptionChange (SetFlag key checked) (app_options s)))
  | RegenerateClicked => generateNewPassword s
  end.

Fixpoint handleEvents (events : list Event) (s : AppState) : Rand AppState :=
  match events with
  | [] => ret s
  | e :: rest => s' <- handleEvent e s ;; handleEvents rest s'
  end.

(** Mounting runs both effects, each calling [generateNewPassword]. *)
Definition mount : Rand AppState :=
  s <- generateNewPassword initialState ;;
  generateNewPassword s.

Definition session (events : list Event) : Rand AppState :=
  s <- mount ;; handleEvents events s.

(** ** Notions used to state properties *)

(** The character at position [i] of a password drawn from [charSet] when
    the source is in state [st]. *)
Definition drawnChar (charSet : jsstring) (st : Crypto) (i : nat) : Z :=
  nth (Z.to_nat (uint32 (entropy st (consumed st + i)%nat)
                 mod Z.of_nat (List.length charSet)))
      charSet 0.

(** How many of the 2^32 values of a [Uint32Array] cell select index [i]
    of a set of [n] characters. *)
Definition preimages (n i : Z) : Z :=
  2 ^ 32 / n + (if i <? 2 ^ 32 mod n then 1 else 0).

Definition allMessages : list string :=
  [msgLength8; msgLength12; msgLowercase; msgUppercase; msgDigit;
   msgSymbol; msgDistinct].

(** The displayed strength is that of the displayed password, and the
    stored length is in the range of the slider. *)
Definition consistent (s : AppState) : Prop :=
  app_strength s = calculatePasswordStrength (app_password s)
  /\ (4 <= lengthOf (app_options s) <= 128)%Z.

Definition lengthInRange (s : AppState) : Prop :=
  (4 <= List.length (app_password s) <= 128)%nat.

(** The displayed password fits the stored options. *)
Definition fitsOptions (s : AppState) : Prop :=
  List.length (app_password s) = Z.to_nat (lengthOf (app_options s))
  /\ Forall (fun c => In c (charSetOf (app_options s))) (app_password s).

(** The options that an event leaves in the state. *)
Definition optionsAfter (e : Event) (prev : Options) : Options :=
  match e with
  | SliderMoved parsed => handleLengthChange parsed prev
  | CheckboxChanged key checked =>
      handleOptionChange (SetFlag key checked) prev
  | RegenerateClicked => prev
  end.


(** * Properties *)

Example generate_sample :
  fst (generatePassword
         (mkOptions (Some 3) None None None None None None)
         (mkCrypto (fun i => Z.of_nat i * 30 + 4294967296 * 7) 0))
  = Return (units "Ae8").
Proof. vm_compute. reflexivity. Qed.

(** ** The generator: shared lemmas *)

Section Generator.

Local Open Scope nat_scope.

Lemma uint32_range (v : Z) : (0 <= uint32 v < 2 ^ 32)%Z.
Proof. unfold uint32. apply Z.mod_pos_bound. lia. Qed.

Lemma charAt_some (s : jsstring) (i : Z) :
  (0 <= i < Z.of_nat (List.length s))%Z ->
  exists c, charAt s i = Some c /\ In c s.
Proof.
  intros Hi. unfold charAt.
  destruct (Z.ltb_spec i 0) as [Hneg | _]; [lia |].
  destruct (nth_error s (Z.to_nat i)) as [c |] eqn:E.
  - exists c. split; [reflexivity | eapply nth_error_In; eassumption].
  - apply nth_error_None in E. lia.
Qed.

(** One draw from a non-empty set: a member of the set, one value read. *)
Lemma getRandomChar_member (charSet : jsstring) (st : Crypto) :
  charSet <> [] ->
  exists c,
    getRandomChar charSet st
      = (Some c, mkCrypto (entropy st) (consumed st + 1))
    /\ In c charSet.
Proof.
  intros Hne. unfold getRandomChar, bind, getRandomValues, ret. cbn [seq map nth].
  destruct (charAt_some charSet
              (uint32 (entropy st (consumed st + 0))
                 mod Z.of_nat (List.length charSet))) as (c & Hc & Hin).
  - apply Z.mod_pos_bound. destruct charSet; [congruence | cbn; lia].
  - exists c. rewrite Hc. auto.
Qed.

Lemma drawLoop_member (charSet : jsstring) :
  charSet <> [] ->
  forall remaining password st,
  exists drawn,
    drawLoop remaining charSet password st
      = ((password ++ drawn)%list,
         mkCrypto (entropy st) (consumed st + remaining))
    /\ List.length drawn = remaining
    /\ Forall (fun c => In c charSet) drawn.
Proof.
  intros Hne. induction remaining as [| k IH]; intros password st.
  - exists []. cbn. rewrite app_nil_r, Nat.add_0_r. destruct st; auto.
  - destruct (getRandomChar_member charSet st Hne) as (c & Hc & Hin).
    destruct (IH (appendValue password (Some c))
                 (mkCrypto (entropy st) (consumed st + 1)))
      as (rest & Hrest & Hlen & Hall).
    exists (c :: rest). cbn [drawLoop]. unfold bind at 1. rewrite Hc, Hrest.
    cbn. rewrite <- app_assoc. cbn.
    repeat split; [ do 2 f_equal; lia | lia | constructor; assumption ].
Qed.

(** With a non-empty set the call returns: [length] characters of the set,
    [length] values read. *)
Lemma generatePassword_returns (options : Options) (st : Crypto) :
  charSetOf options <> [] ->
  exists password,
    generatePassword options st
      = (Return password,
         mkCrypto (entropy st)
           (consumed st + Z.to_nat (lengthOf options)))
    /\ List.length password = Z.to_nat (lengthOf options)
    /\ Forall (fun c => In c (charSetOf options)) password.
Proof.
  intros Hne. unfold generatePassword.
  destruct (charSetOf options) as [| c0 cs] eqn:E; [congruence |].
  cbn [List.length Nat.eqb].
  destruct (drawLoop_member (c0 :: cs) Hne
              (Z.to_nat (lengthOf options)) [] st)
    as (drawn & Hrun & Hlen & Hall).
  exists drawn. unfold bind. rewrite Hrun. cbn. auto.
Qed.

(** With an empty set the call throws and reads nothing. *)
Lemma generatePassword_throws (options : Options) (st : Crypto) :
  charSetOf options = [] ->
  generatePassword options st = (Throw emptyCharSetMessage, st).
Proof. intros E. unfold generatePassword. rewrite E. reflexivity. Qed.

Lemma generatePassword_chars (options : Options) (st st' : Crypto)
    (password : jsstring) :
  generatePassword options st = (Return password, st') ->
  Forall (fun c => In c (charSetOf options)) password.
Proof.
  intros Hrun. destruct (charSetOf options) as [| c0 cs] eqn:E.
  - rewrite generatePassword_throws in Hrun by assumption. discriminate.
  - destruct (generatePassword_returns options st) as (p & Hp & _ & Hall).
    + rewrite E. discriminate.
    + rewrite Hp in Hrun. injection Hrun as <- _. rewrite <- E. exact Hall.
Qed.

Lemma buildCharSet_concat (iu il inum isym es ea : bool) :
  buildCharSet iu il inum isym es ea
  = ((if iu then uppercaseTable es else [])
     ++ (if il then lowercaseTable es else [])
     ++ (if inum then numbersTable es else [])
     ++ (if isym then symbolsTable ea else []))%list.
Proof.
  unfold buildCharSet.
  destruct iu, il, inum, isym; cbn [app];
    rewrite ?app_nil_r, <- ?app_assoc; reflexivity.
Qed.

Lemma buildCharSet_empty_iff (iu il inum isym es ea : bool) :
  buildCharSet iu il inum isym es ea = []
  <-> iu = false /\ il = false /\ inum = false /\ isym = false.
Proof.
  split.
  - destruct iu, il, inum, isym, es, ea; intros H;
      solve [ auto | vm_compute in H; discriminate H ].
  - intros (-> & -> & -> & ->). reflexivity.
Qed.

(** A property checked on every character of a concrete set. *)
Lemma avoid_check (bad s : jsstring) :
  forallb (fun c => negb (memZ c bad)) s = true ->
  Forall (fun c => ~ In c bad) s.
Proof.
  rewrite forallb_forall, Forall_forall. intros H c Hc Hbad.
  specialize (H c Hc). apply negb_true_iff in H.
  assert (memZ c bad = true) as Hmem; [| congruence].
  unfold memZ. apply existsb_exists. exists c. split; [assumption |].
  apply Z.eqb_refl.
Qed.

Lemma Forall_members {A} (P : A -> Prop) (set l : list A) :
  Forall P set -> Forall (fun c => In c set) l -> Forall P l.
Proof.
  rewrite !Forall_forall. intros Hset Hl c Hc. apply Hset, Hl, Hc.
Qed.

Lemma similar_excluded (iu il inum isym ea : bool) :
  Forall (fun c => ~ In c similarChars)
         (buildCharSet iu il inum isym true ea).
Proof.
  apply avoid_check. destruct iu, il, inum, isym, ea; vm_compute; reflexivity.
Qed.

Lemma omitted_excluded (iu il inum isym es : bool) :
  Forall (fun c => ~ In c omittedSymbols)
         (buildCharSet iu il inum isym es true).
Proof.
  apply avoid_check. destruct iu, il, inum, isym, es; vm_compute; reflexivity.
Qed.

End Generator.

(** ** The generator: claims *)

(** C1, as stated, fails: with [includeSymbols] and [excludeAmbiguous]
    both true and the random source delivering 76, the one-character
    password is an opening square bracket, which is in the set
    of the claim. *)
Lemma C1_bracket_generated :
  includeSymbols oneSymbolSafe = true
  /\ excludeAmbiguous oneSymbolSafe = true
  /\ fst (generatePassword oneSymbolSafe (constantSource 76))
     = Return (units "[")
  /\ In 91%Z (units "[")
  /\ In 91%Z ambiguousSymbols.
Proof. vm_compute. intuition. Qed.

(** C1, amended: for every configuration with [includeSymbols] and
    [excludeAmbiguous] true and every random source, no character of the
    returned password is a slash, a tilde or a backquote, whatever
    [excludeSimilar] is. *)
Theorem C1_excludeAmbiguous_omits_slash_tilde_backquote
    (options : Options) (st st' : Crypto) (password : jsstring) :
  includeSymbols options = true ->
  excludeAmbiguous options = true ->
  generatePassword options st = (Return password, st') ->
  Forall (fun c => ~ In c omittedSymbols) password.
Proof.
  intros _ Hea Hrun.
  eapply Forall_members; [| eapply generatePassword_chars; eassumption].
  unfold charSetOf. rewrite Hea. apply omitted_excluded.
Qed.

Lemma C1_witness :
  Forall (fun c => ~ In c omittedSymbols) (units "[").
Proof.
  apply (C1_excludeAmbiguous_omits_slash_tilde_backquote
           oneSymbolSafe (constantSource 76) (mkCrypto (fun _ => 76%Z) 1));
    vm_compute; reflexivity.
Defined.

(** C2: for every configuration with length n >= 1 and at least one
    include-flag true, and every random source, generatePassword returns
    a string of exactly n characters, each a member of the character set
    obtained by concatenating, in the order uppercase, lowercase, numbers,
    symbols, the tables of the selected classes. *)
Theorem C2_length_and_membership
    (options : Options) (st : Crypto) (n : Z) :
  lengthOf options = n ->
  (1 <= n)%Z ->
  includeUppercase options || includeLowercase options
    || includeNumbers options || includeSymbols options = true ->
  exists password st',
    generatePassword options st = (Return password, st')
    /\ Z.of_nat (List.length password) = n
    /\ Forall
         (fun c =>
            In c ((if includeUppercase options
                   then uppercaseTable (excludeSimilar options) else [])
                  ++ (if includeLowercase options
                      then lowercaseTable (excludeSimilar options) else [])
                  ++ (if includeNumbers options
                      then numbersTable (excludeSimilar options) else [])
                  ++ (if includeSymbols options
                      then symbolsTable (excludeAmbiguous options) else []))%list)
         password.
Proof.
  intros Hn Hpos Hflag.
  destruct (generatePassword_returns options st) as (p & Hrun & Hlen & Hall).
  - intros E. apply buildCharSet_empty_iff in E.
    destruct E as (E1 & E2 & E3 & E4).
    rewrite E1, E2, E3, E4 in Hflag. discriminate.
  - exists p. eexists. split; [exact Hrun |]. split.
    + rewrite Hlen, Hn. lia.
    + unfold charSetOf in Hall. rewrite buildCharSet_concat in Hall.
      exact Hall.
Qed.

Lemma C2_witness :
  exists password st',
    generatePassword fourSimilarFree (constantSource 5)
      = (Return password, st')
    /\ Z.of_nat (List.length password) = 4%Z
    /\ Forall
         (fun c =>
            In c (uppercaseTable true ++ lowercaseTable true
                  ++ numbersTable true ++ symbolsTable false)%list)
         password.
Proof.
  apply (C2_length_and_membership fourSimilarFree (constantSource 5) 4);
    [ reflexivity | lia | reflexivity ].
Defined.

(** C4: for every configuration with [excludeSimilar] true and every
    random source, no character of the returned password is one of
    0, O, 1, l, I; this holds for every position, so in particular for
    the characters that come from the uppercase, lowercase and numbers
    tables. *)
Theorem C4_excludeSimilar_omits_lookalikes
    (options : Options) (st st' : Crypto) (password : jsstring) :
  excludeSimilar options = true ->
  generatePassword options st = (Return password, st') ->
  Forall (fun c => ~ In c similarChars) password.
Proof.
  intros Hes Hrun.
  eapply Forall_members; [| eapply generatePassword_chars; eassumption].
  unfold charSetOf. rewrite Hes. apply similar_excluded.
Qed.

Lemma C4_witness :
  Forall (fun c => ~ In c similarChars) (units "FFFF").
Proof.
  apply (C4_excludeSimilar_omits_lookalikes
           fourSimilarFree (constantSource 5) (mkCrypto (fun _ => 5%Z) 4));
    vm_compute; reflexivity.
Defined.




(** ** The scorer: shared lemmas *)

Section Logarithm.

Local Open Scope R_scope.

Lemma ln2_pos : 0 < ln 2.
Proof. pose proof ln_lt_2. lra. Qed.

Lemma ln_le (x y : R) : 0 < x -> x <= y -> ln x <= ln y.
Proof.
  intros Hx [Hlt | ->]; [left; apply ln_increasing; assumption | right; reflexivity].
Qed.

Lemma log2_le (x y : R) : 0 < x -> x <= y -> log2 x <= log2 y.
Proof.
  intros Hx Hxy. unfold log2, Rdiv.
  apply Rmult_le_compat_r; [left; apply Rinv_0_lt_compat, ln2_pos |].
  apply ln_le; assumption.
Qed.

Lemma log2_pow2 (n : nat) : log2 (2 ^ n) = INR n.
Proof.
  unfold log2. rewrite ln_pow by lra. field. pose proof ln2_pos. lra.
Qed.

Lemma log2_lower (n : nat) (x : R) : 2 ^ n <= x -> INR n <= log2 x.
Proof.
  intros H. rewrite <- (log2_pow2 n). apply log2_le; [| exact H].
  apply pow_lt. lra.
Qed.


Lemma log2_nonneg (x : R) : 1 <= x -> 0 <= log2 x.
Proof. intros H. apply (log2_lower 0 x). simpl. exact H. Qed.

End Logarithm.

Section Scorer.

Local Open Scope R_scope.

Lemma some_class (c : Z) :
  isLower c || isUpper c || isDigit c || isOther c = true.
Proof.
  unfold isOther. destruct (isLower c || isUpper c || isDigit c); reflexivity.
Qed.

(** A non-empty string meets at least one of the four tests. *)
Lemma some_class_present (password : jsstring) :
  password <> [] ->
  hasLower password || hasUpper password || hasDigit password
    || hasOther password = true.
Proof.
  destruct password as [| c rest]; [congruence | intros _].
  unfold hasLower, hasUpper, hasDigit, hasOther. cbn [existsb].
  pose proof (some_class c) as H.
  destruct (isLower c), (isUpper c), (isDigit c), (isOther c);
    cbn in *; try discriminate; rewrite ?orb_true_r; reflexivity.
Qed.

Lemma getCharSetSize_range (password : jsstring) :
  password <> [] -> (10 <= getCharSetSize password <= 94)%Z.
Proof.
  intros Hne. pose proof (some_class_present password Hne) as H.
  unfold getCharSetSize.
  destruct (hasLower password), (hasUpper password), (hasDigit password),
    (hasOther password); cbn in *; try discriminate; lia.
Qed.

Lemma lengthBonus_range (password : jsstring) : 0 <= lengthBonus password <= 40.
Proof.
  unfold lengthBonus.
  destruct (8 <=? _)%nat, (12 <=? _)%nat, (16 <=? _)%nat, (20 <=? _)%nat; lra.
Qed.

Lemma classBonus_range (password : jsstring) : 0 <= classBonus password <= 40.
Proof.
  unfold classBonus.
  destruct (hasLower password), (hasUpper password), (hasDigit password),
    (hasOther password); lra.
Qed.

Lemma classBonus_min (password : jsstring) :
  password <> [] -> 10 <= classBonus password.
Proof.
  intros Hne. pose proof (some_class_present password Hne) as H.
  unfold classBonus.
  destruct (hasLower password), (hasUpper password), (hasDigit password),
    (hasOther password); cbn in H; try discriminate; lra.
Qed.

Lemma length_pos (password : jsstring) :
  password <> [] -> 0 < INR (List.length password).
Proof.
  intros Hne. apply lt_0_INR. destruct password; [congruence | cbn; lia].
Qed.

Lemma uniqueRatio_nonneg (password : jsstring) : 0 <= uniqueRatio password.
Proof.
  unfold uniqueRatio, Rdiv.
  destruct password as [| c rest].
  - cbn. rewrite Rinv_0. lra.
  - apply Rmult_le_pos; [apply pos_INR |].
    left. apply Rinv_0_lt_compat, length_pos. discriminate.
Qed.

Lemma uniquenessBonus_range (password : jsstring) :
  0 <= uniquenessBonus password <= 20.
Proof.
  unfold uniquenessBonus. split; [| apply Rmin_r].
  apply Rmin_glb; [| lra]. pose proof (uniqueRatio_nonneg password). lra.
Qed.

Lemma entropyBonus_le (password : jsstring) : entropyBonus password <= 10.
Proof. unfold entropyBonus. apply Rmin_r. Qed.

Lemma entropyBonus_nonneg (password : jsstring) :
  password <> [] -> 0 <= entropyBonus password.
Proof.
  intros Hne. unfold entropyBonus. apply Rmin_glb; [| lra].
  assert (0 <= log2 (IZR (getCharSetSize password))) as Hlog.
  { apply log2_nonneg. apply IZR_le.
    pose proof (getCharSetSize_range password Hne). lia. }
  pose proof (length_pos password Hne). nra.
Qed.

Lemma clampScore_range (x : R) : 0 <= clampScore x <= 100.
Proof.
  unfold clampScore. split; [| apply Rmin_r].
  apply Rmin_glb; [apply Rmax_r | lra].
Qed.


Lemma clampScore_id (x : R) : 0 <= x <= 100 -> clampScore x = x.
Proof.
  intros [H0 H100]. unfold clampScore.
  rewrite Rmax_left by lra. apply Rmin_left. exact H100.
Qed.

Lemma rawScore_min (password : jsstring) :
  password <> [] -> 10 <= rawScore password.
Proof.
  intros Hne. unfold rawScore.
  pose proof (lengthBonus_range password).
  pose proof (classBonus_min password Hne).
  pose proof (uniquenessBonus_range password).
  pose proof (entropyBonus_nonneg password Hne).
  lra.
Qed.

Lemma score_nonempty (password : jsstring) :
  password <> [] ->
  score (calculatePasswordStrength password) = clampScore (rawScore password).
Proof. destruct password; [congruence | reflexivity]. Qed.

Lemma levelOf_weak (x : R) : x < 40 -> levelOf x = "weak"%string.
Proof.
  intros H. unfold levelOf.
  destruct (Rle_dec 80 x); [lra |].
  destruct (Rle_dec 60 x); [lra |].
  destruct (Rle_dec 40 x); [lra | reflexivity].
Qed.

End Scorer.

(** ** The scorer on the sample inputs *)

Section Samples.

Local Open Scope R_scope.

Lemma eightA_uniquenessBonus : uniquenessBonus eightA = 5 / 2.
Proof.
  unfold uniquenessBonus, uniqueRatio.
  replace (uniqueChars eightA) with 1%nat by (vm_compute; reflexivity).
  replace (List.length eightA) with 8%nat by reflexivity.
  rewrite !INR_IZR_INZ. cbn [Z.of_nat Pos.of_succ_nat Pos.succ].
  rewrite Rmin_left; lra.
Qed.

Lemma eightA_uniqueRatio : uniqueRatio eightA = 1 / 8.
Proof.
  unfold uniqueRatio.
  replace (uniqueChars eightA) with 1%nat by (vm_compute; reflexivity).
  replace (List.length eightA) with 8%nat by reflexivity.
  rewrite !INR_IZR_INZ. cbn [Z.of_nat Pos.of_succ_nat Pos.succ]. lra.
Qed.

Lemma eightA_lengthBonus : lengthBonus eightA = 10.
Proof.
  unfold lengthBonus.
  replace (List.length eightA) with 8%nat by reflexivity.
  cbn [Nat.leb]. lra.
Qed.

Lemma eightA_classBonus : classBonus eightA = 10.
Proof.
  unfold classBonus.
  replace (hasLower eightA) with true by reflexivity.
  replace (hasUpper eightA) with false by reflexivity.
  replace (hasDigit eightA) with false by reflexivity.
  replace (hasOther eightA) with false by reflexivity. lra.
Qed.

Lemma eightA_rawScore_range : 10 <= rawScore eightA < 40.
Proof.
  unfold rawScore.
  rewrite eightA_uniquenessBonus, eightA_lengthBonus, eightA_classBonus.
  pose proof (entropyBonus_le eightA).
  assert (0 <= entropyBonus eightA) by (apply entropyBonus_nonneg; discriminate).
  lra.
Qed.

Lemma eightA_feedback :
  feedbackOf eightA
  = [msgLength12; msgUppercase; msgDigit; msgSymbol; msgDistinct].
Proof.
  unfold feedbackOf. rewrite eightA_uniqueRatio.
  destruct (Rlt_dec (1 / 8) (1 / 2)) as [_ | Hn]; [reflexivity | lra].
Qed.

Lemma abcdTimes8_entropyBonus : entropyBonus abcdTimes8 = 10.
Proof.
  unfold entropyBonus.
  replace (getCharSetSize abcdTimes8) with 26%Z by reflexivity.
  replace (List.length abcdTimes8) with 32%nat by reflexivity.
  apply Rmin_right.
  pose proof (log2_lower 4 26) as H. cbn [INR pow] in H.
  rewrite INR_IZR_INZ. cbn [Z.of_nat Pos.of_succ_nat Pos.succ].
  lra.
Qed.

Lemma abcdTimes8_score :
  score (calculatePasswordStrength abcdTimes8) = 125 / 2.
Proof.
  rewrite score_nonempty by discriminate.
  assert (rawScore abcdTimes8 = 125 / 2) as ->.
  { unfold rawScore. rewrite abcdTimes8_entropyBonus.
    replace (lengthBonus abcdTimes8) with 40
      by (unfold lengthBonus;
          replace (List.length abcdTimes8) with 32%nat by reflexivity;
          cbn [Nat.leb]; lra).
    replace (classBonus abcdTimes8) with 10
      by (unfold classBonus;
          replace (hasLower abcdTimes8) with true by reflexivity;
          replace (hasUpper abcdTimes8) with false by reflexivity;
          replace (hasDigit abcdTimes8) with false by reflexivity;
          replace (hasOther abcdTimes8) with false by reflexivity; lra).
    replace (uniquenessBonus abcdTimes8) with (5 / 2); [lra |].
    unfold uniquenessBonus, uniqueRatio.
    replace (uniqueChars abcdTimes8) with 4%nat by (vm_compute; reflexivity).
    replace (List.length abcdTimes8) with 32%nat by reflexivity.
    rewrite !INR_IZR_INZ. cbn [Z.of_nat Pos.of_succ_nat Pos.succ].
    rewrite Rmin_left; lra. }
  apply clampScore_id. lra.
Qed.

Lemma half_not_integer (z : Z) : 125 / 2 <> IZR z.
Proof.
  intros H. assert (IZR 125 = IZR (2 * z)) as E.
  { rewrite mult_IZR. lra. }
  apply eq_IZR in E. lia.
Qed.

(** Five code units, four elements in the [Set]. *)
Example face_counts :
  List.length (mixedThree ++ grinningFace) = 5%nat
  /\ stringIterator (mixedThree ++ grinningFace)
     = [[97%Z]; [65%Z]; [33%Z]; grinningFace]
  /\ uniqueChars (mixedThree ++ grinningFace) = 4%nat.
Proof. repeat split; vm_compute; reflexivity. Qed.



End Samples.

(** ** Appending characters *)

Section Appending.

Local Open Scope nat_scope.

(** Induction that follows the two-step recursion of [stringIterator]. *)
Lemma jsstring_pair_ind (P : jsstring -> Prop) :
  P [] ->
  (forall c, P [c]) ->
  (forall c d rest, P rest -> P (d :: rest) -> P (c :: d :: rest)) ->
  forall s, P s.
Proof.
  intros Hnil Hone Hstep s.
  enough (P s /\ forall c, P (c :: s)) as [H _] by exact H.
  induction s as [| d rest [IHrest IHcons]].
  - split; [exact Hnil | exact Hone].
  - split; [apply IHcons |].
    intros c. apply Hstep; [exact IHrest | apply IHcons].
Qed.

Lemma stringIterator_cons2 (c d : Z) (rest : jsstring) :
  stringIterator (c :: d :: rest)
  = if isHighSurrogate c && isLowSurrogate d
    then [c; d] :: stringIterator rest
    else [c] :: stringIterator (d :: rest).
Proof. reflexivity. Qed.

Lemma stringIterator_units (s : jsstring) :
  forall x, In x (stringIterator s) -> forall c, In c x -> In c s.
Proof.
  induction s as [| c0 | c0 d rest IHrest IHcons] using jsstring_pair_ind.
  - intros x [].
  - intros x [<- | []] c Hc. exact Hc.
  - intros x Hx c Hc. rewrite stringIterator_cons2 in Hx.
    destruct (isHighSurrogate c0 && isLowSurrogate d).
    + destruct Hx as [<- | Hx].
      * destruct Hc as [<- | [<- | []]]; cbn; auto.
      * right. right. eapply IHrest; eassumption.
    + destruct Hx as [<- | Hx].
      * destruct Hc as [<- | []]. left. reflexivity.
      * right. eapply IHcons; eassumption.
Qed.

Lemma stringIterator_length (s : jsstring) :
  List.length (stringIterator s) <= List.length s.
Proof.
  induction s as [| c0 | c0 d rest IHrest IHcons] using jsstring_pair_ind.
  - cbn. lia.
  - cbn. lia.
  - rewrite stringIterator_cons2.
    destruct (isHighSurrogate c0 && isLowSurrogate d);
      cbn [List.length] in *; lia.
Qed.

Lemma stringIterator_plain (s : jsstring) :
  Forall (fun c => isSurrogate c = false) s ->
  stringIterator s = map (fun c => [c]) s.
Proof.
  induction s as [| c rest IH]; intros Hplain; [reflexivity |].
  inversion Hplain as [| ? ? Hc Hrest]; subst.
  destruct rest as [| d rest'].
  - reflexivity.
  - rewrite stringIterator_cons2.
    apply orb_false_elim in Hc as [Hhigh _]. rewrite Hhigh. cbn [andb map].
    f_equal. apply IH, Hrest.
Qed.

(** Units that are not surrogates never join a pair, so the iterator
    yields them one by one after the elements of the prefix. *)
Lemma stringIterator_app_plain (p s : jsstring) :
  Forall (fun c => isSurrogate c = false) s ->
  stringIterator (p ++ s) = (stringIterator p ++ map (fun c => [c]) s)%list.
Proof.
  intros Hplain.
  induction p as [| c0 | c0 d rest IHrest IHcons] using jsstring_pair_ind.
  - apply stringIterator_plain, Hplain.
  - cbn [app]. destruct s as [| d s']; [reflexivity |].
    rewrite stringIterator_cons2.
    inversion Hplain as [| ? ? Hd Hs']; subst.
    apply orb_false_elim in Hd as [_ Hlow]. rewrite Hlow, andb_false_r.
    change (stringIterator [c0]) with [[c0]]. cbn [app]. f_equal.
    apply stringIterator_plain, Hplain.
  - change ((c0 :: d :: rest) ++ s)%list with (c0 :: d :: (rest ++ s))%list.
    rewrite !stringIterator_cons2.
    destruct (isHighSurrogate c0 && isLowSurrogate d); cbn [app]; f_equal.
    + exact IHrest.
    + exact IHcons.
Qed.

Lemma setSize_le (items : list jsstring) :
  setSize items <= List.length items.
Proof.
  unfold setSize. induction items as [| x rest IH]; [cbn; lia |].
  cbn [nodup]. destruct (in_dec jsstring_eq_dec x rest); cbn [List.length]; lia.
Qed.

Lemma setSize_app_fresh (items fresh : list jsstring) :
  NoDup fresh ->
  (forall x, In x fresh -> ~ In x items) ->
  setSize (items ++ fresh) = setSize items + List.length fresh.
Proof.
  intros Hnodup Hfresh. unfold setSize.
  induction items as [| x rest IH].
  - cbn [app]. rewrite nodup_fixed_point by assumption. reflexivity.
  - assert (forall y, In y fresh -> ~ In y rest) as Hrest.
    { intros y Hy Hin. apply (Hfresh y Hy). right. exact Hin. }
    specialize (IH Hrest). cbn [app nodup].
    destruct (in_dec jsstring_eq_dec x (rest ++ fresh)) as [Hin | Hout],
             (in_dec jsstring_eq_dec x rest) as [Hin' | Hout'];
      cbn [List.length]; try lia.
    + exfalso. apply in_app_or in Hin as [Hin | Hin]; [contradiction |].
      apply (Hfresh x Hin). left. reflexivity.
    + exfalso. apply Hout, in_or_app. left. exact Hin'.
Qed.

Lemma uniqueChars_le (password : jsstring) :
  uniqueChars password <= List.length password.
Proof.
  unfold uniqueChars.
  pose proof (setSize_le (stringIterator password)).
  pose proof (stringIterator_length password). lia.
Qed.

(** Each appended unit is one new element of the set. *)
Lemma uniqueChars_app (password added : jsstring) :
  Forall (fun c => isSurrogate c = false) added ->
  NoDup added ->
  (forall c, In c added -> ~ In c password) ->
  uniqueChars (password ++ added)
  = uniqueChars password + List.length added.
Proof.
  intros Hplain Hnodup Hfresh. unfold uniqueChars.
  rewrite stringIterator_app_plain by assumption.
  rewrite setSize_app_fresh.
  - rewrite length_map. reflexivity.
  - clear -Hnodup. induction Hnodup as [| c l Hc _ IH]; cbn [map].
    + constructor.
    + constructor; [| exact IH].
      intros Hin. apply in_map_iff in Hin as (c' & E & Hc').
      injection E as ->. contradiction.
  - intros x Hx Hin. apply in_map_iff in Hx as (c & <- & Hc).
    apply (Hfresh c Hc).
    apply (stringIterator_units password [c] Hin). left. reflexivity.
Qed.

End Appending.

(** ** The score under appending *)

Section Monotone.

Local Open Scope R_scope.

Lemma threshold_step (t n m : nat) (x y : R) :
  (n <= m)%nat -> x <= y ->
  (if (t <=? n)%nat then x + 10 else x)
  <= (if (t <=? m)%nat then y + 10 else y).
Proof.
  intros Hnm Hxy.
  destruct (Nat.leb_spec t n), (Nat.leb_spec t m); try lra. lia.
Qed.

Lemma presence_step (b b' : bool) (x y : R) :
  (b = true -> b' = true) -> x <= y ->
  (if b then x + 10 else x) <= (if b' then y + 10 else y).
Proof.
  intros Hb Hxy. destruct b, b'; solve [lra | discriminate (Hb eq_refl)].
Qed.

Lemma size_step (b b' : bool) (k x y : Z) :
  (b = true -> b' = true) -> (0 <= k)%Z -> (x <= y)%Z ->
  ((if b then x + k else x) <= (if b' then y + k else y))%Z.
Proof.
  intros Hb Hk Hxy. destruct b, b'; solve [lia | discriminate (Hb eq_refl)].
Qed.

Lemma existsb_app_keeps (f : Z -> bool) (p s : jsstring) :
  existsb f p = true -> existsb f (p ++ s) = true.
Proof. intros H. rewrite existsb_app, H. reflexivity. Qed.

Lemma lengthBonus_app (p s : jsstring) :
  lengthBonus p <= lengthBonus (p ++ s).
Proof.
  unfold lengthBonus. rewrite length_app.
  repeat (apply threshold_step; [lia |]). lra.
Qed.

Lemma classBonus_app (p s : jsstring) :
  classBonus p <= classBonus (p ++ s).
Proof.
  unfold classBonus, hasLower, hasUpper, hasDigit, hasOther.
  repeat (apply presence_step; [apply existsb_app_keeps |]). lra.
Qed.

Lemma getCharSetSize_app (p s : jsstring) :
  (getCharSetSize p <= getCharSetSize (p ++ s))%Z.
Proof.
  unfold getCharSetSize, hasLower, hasUpper, hasDigit, hasOther.
  repeat (apply size_step; [apply existsb_app_keeps | lia |]). lia.
Qed.

(** [u / n <= (u + k) / (n + k)] when [u <= n]. *)
Lemma ratio_grows (u n k : nat) :
  (0 < n)%nat -> (u <= n)%nat ->
  INR u / INR n <= INR (u + k) / INR (n + k).
Proof.
  intros Hn Hun. rewrite !plus_INR.
  assert (0 < INR n) as Hn' by (apply lt_0_INR; exact Hn).
  assert (0 <= INR k) as Hk by apply pos_INR.
  assert (INR u <= INR n) as Hun' by (apply le_INR; exact Hun).
  assert (0 <= INR u) as Hu by apply pos_INR.
  apply Rmult_le_reg_r with (INR n * (INR n + INR k)); [nra |].
  replace (INR u / INR n * (INR n * (INR n + INR k)))
    with (INR u * (INR n + INR k)) by (field; lra).
  replace ((INR u + INR k) / (INR n + INR k) * (INR n * (INR n + INR k)))
    with ((INR u + INR k) * INR n) by (field; lra).
  nra.
Qed.

Section Append.

Variables password added : jsstring.
Hypothesis nonempty : password <> [].
Hypothesis plain : Forall (fun c => isSurrogate c = false) added.
Hypothesis distinct : NoDup added.
Hypothesis fresh : forall c, In c added -> ~ In c password.

Lemma uniquenessBonus_app :
  uniquenessBonus password <= uniquenessBonus (password ++ added).
Proof.
  unfold uniquenessBonus, uniqueRatio.
  rewrite uniqueChars_app, length_app by assumption.
  apply Rle_min_compat_r.
  apply Rmult_le_compat_r; [lra |].
  apply ratio_grows; [| apply uniqueChars_le].
  destruct password; [congruence | cbn; lia].
Qed.

Lemma entropyBonus_app :
  entropyBonus password <= entropyBonus (password ++ added).
Proof.
  unfold entropyBonus. apply Rle_min_compat_r.
  pose proof (getCharSetSize_range password nonempty) as [Hlo _].
  pose proof (getCharSetSize_app password added) as Hsize.
  assert (0 <= log2 (IZR (getCharSetSize password))) as Hlog0.
  { apply log2_nonneg, IZR_le. lia. }
  assert (log2 (IZR (getCharSetSize password))
          <= log2 (IZR (getCharSetSize (password ++ added)))) as Hlog.
  { apply log2_le; [apply IZR_lt; lia | apply IZR_le; exact Hsize]. }
  rewrite length_app, plus_INR.
  pose proof (pos_INR (List.length password)).
  pose proof (pos_INR (List.length added)).
  apply Rmult_le_compat_r; [lra |]. nra.
Qed.

Lemma rawScore_app : rawScore password <= rawScore (password ++ added).
Proof.
  unfold rawScore.
  pose proof (lengthBonus_app password added).
  pose proof (classBonus_app password added).
  pose proof uniquenessBonus_app. pose proof entropyBonus_app. lra.
Qed.

End Append.


End Monotone.

(** ** Appending whole characters *)

Section WholeCharacters.

Lemma stringIterator_concat (s : jsstring) : List.concat (stringIterator s) = s.
Proof.
  induction s as [| c0 | c0 d rest IHrest IHcons] using jsstring_pair_ind.
  - reflexivity.
  - reflexivity.
  - rewrite stringIterator_cons2.
    destruct (isHighSurrogate c0 && isLowSurrogate d); cbn [List.concat app].
    + rewrite IHrest. reflexivity.
    + rewrite IHcons. reflexivity.
Qed.




Section Appended.

Variable password : jsstring.
Variable chars : list jsstring.
Hypothesis appended :
  stringIterator (password ++ List.concat chars)
  = (stringIterator password ++ chars)%list.
Hypothesis distinct : NoDup chars.
Hypothesis fresh : forall x, In x chars -> ~ In x (stringIterator password).



End Appended.

Local Open Scope R_scope.



End WholeCharacters.

(** ** The scorer: claims *)

Section ScorerClaims.

Local Open Scope R_scope.

(** C3: generatePassword throws exactly when the derived character set
    is empty, which is exactly when the four include flags are all
    false; the throw comes before any random value is read and carries no
    password.  calculatePasswordStrength yields a report for every
    string, and on a non-empty one it divides by a non-zero length and
    takes the logarithm of a positive size. *)
Theorem C3_throws_iff_nothing_selected (options : Options) (st : Crypto) :
  ((exists message st',
      generatePassword options st = (Throw message, st'))
   <-> charSetOf options = [])
  /\ (charSetOf options = []
      <-> includeUppercase options = false
          /\ includeLowercase options = false
          /\ includeNumbers options = false
          /\ includeSymbols options = false)
  /\ (forall message st',
        generatePassword options st = (Throw message, st') ->
        st' = st /\ message = emptyCharSetMessage)
  /\ (forall password : jsstring,
        (exists report, calculatePasswordStrength password = report)
        /\ (password <> [] ->
            INR (List.length password) <> 0
            /\ 0 < IZR (getCharSetSize password))).
Proof.
  assert (forall message st',
            generatePassword options st = (Throw message, st') ->
            charSetOf options = []) as Hempty.
  { intros message st' Hrun.
    destruct (charSetOf options) as [| c0 cs] eqn:E; [reflexivity |].
    destruct (generatePassword_returns options st) as (p & Hp & _).
    - rewrite E. discriminate.
    - rewrite Hp in Hrun. discriminate. }
  split; [split |].
  - intros (message & st' & Hrun). eapply Hempty, Hrun.
  - intros E. exists emptyCharSetMessage, st.
    apply generatePassword_throws, E.
  - split; [apply buildCharSet_empty_iff |].
    split.
    + intros message st' Hrun. apply Hempty in Hrun as E.
      rewrite (generatePassword_throws options st E) in Hrun.
      injection Hrun as <- <-. split; reflexivity.
    + intros password. split; [eexists; reflexivity |].
      intros Hne. split.
      * pose proof (length_pos password Hne). lra.
      * apply IZR_lt. pose proof (getCharSetSize_range password Hne). lia.
Qed.

Lemma C3_witness :
  exists message st',
    generatePassword nothingSelected (constantSource 0) = (Throw message, st').
Proof.
  apply (proj2 (proj1 (C3_throws_iff_nothing_selected
                         nothingSelected (constantSource 0)))).
  reflexivity.
Defined.

(** C5, as stated, fails: the string made of "abcd" eight times scores
    62.5, which is not an integer. *)
Lemma C5_score_not_integer :
  ~ isInteger (score (calculatePasswordStrength abcdTimes8)).
Proof.
  intros [z Hz]. rewrite abcdTimes8_score in Hz.
  exact (half_not_integer z Hz).
Qed.

(** C5, amended: for every string, the score of the report is a real
    number in the interval [0, 100]; it need not be an integer. *)
Theorem C5_score_range (password : jsstring) :
  0 <= score (calculatePasswordStrength password) <= 100.
Proof.
  destruct password as [| c rest].
  - cbn. lra.
  - rewrite score_nonempty by discriminate. apply clampScore_range.
Qed.

(** C6: the empty string gets exactly score 0, level weak and no
    feedback, from the first branch of the function. *)
Theorem C6_empty_string :
  calculatePasswordStrength (units "") = mkReport 0 "weak"%string [].
Proof. reflexivity. Qed.

(** C7: "aaaaaaaa" gets length bonus 10, class bonus 10, uniqueness
    bonus 2.5 and an entropy bonus of at most 10; its score is the sum of
    these four, between 22.5 and 32.5, so its level is weak; its feedback
    is the messages for length below 12, no uppercase, no digit, no
    symbol and unique ratio below 0.5, in this order. *)
Theorem C7_eight_a :
  lengthBonus eightA = 10
  /\ classBonus eightA = 10
  /\ uniquenessBonus eightA = 5 / 2
  /\ entropyBonus eightA <= 10
  /\ score (calculatePasswordStrength eightA)
     = 10 + 10 + 5 / 2 + entropyBonus eightA
  /\ 45 / 2 <= score (calculatePasswordStrength eightA) <= 65 / 2
  /\ level (calculatePasswordStrength eightA) = "weak"%string
  /\ feedback (calculatePasswordStrength eightA)
     = [msgLength12; msgUppercase; msgDigit; msgSymbol; msgDistinct].
Proof.
  pose proof (entropyBonus_le eightA) as Hle.
  assert (0 <= entropyBonus eightA) as Hge
    by (apply entropyBonus_nonneg; discriminate).
  assert (score (calculatePasswordStrength eightA)
          = 10 + 10 + 5 / 2 + entropyBonus eightA) as Hscore.
  { rewrite score_nonempty by discriminate. unfold rawScore.
    rewrite eightA_lengthBonus, eightA_classBonus, eightA_uniquenessBonus.
    rewrite clampScore_id; lra. }
  split; [apply eightA_lengthBonus |].
  split; [apply eightA_classBonus |].
  split; [apply eightA_uniquenessBonus |].
  split; [exact Hle |].
  split; [exact Hscore |].
  split; [rewrite Hscore; lra |].
  split; [| apply eightA_feedback].
  change (level (calculatePasswordStrength eightA))
    with (levelOf (score (calculatePasswordStrength eightA))).
  apply levelOf_weak. rewrite Hscore. lra.
Qed.

(** C10: a non-empty string scores at least 10, since one of the four
    class tests always succeeds; so the score is 0 only for the empty
    string. *)
Theorem C10_nonempty_scores_ten (password : jsstring) :
  (password <> [] -> 10 <= score (calculatePasswordStrength password))
  /\ (score (calculatePasswordStrength password) = 0 <-> password = []).
Proof.
  assert (password <> [] -> 10 <= score (calculatePasswordStrength password))
    as Hten.
  { intros Hne. rewrite score_nonempty by assumption.
    pose proof (rawScore_min password Hne) as Hraw.
    unfold clampScore. apply Rmin_glb; [| lra].
    eapply Rle_trans; [exact Hraw | apply Rmax_l]. }
  split; [exact Hten |]. split.
  - intros Hzero. destruct password as [| c rest]; [reflexivity |].
    assert (c :: rest <> []) as Hne by discriminate.
    specialize (Hten Hne). lra.
  - intros ->. reflexivity.
Qed.

Lemma C10_witness : 10 <= score (calculatePasswordStrength eightA).
Proof.
  apply (proj1 (C10_nonempty_scores_ten eightA)). discriminate.
Defined.




End ScorerClaims.

(** * Further properties of the generator *)

Section GeneratorExtras.

Local Open Scope nat_scope.

Lemma getRandomChar_exact (charSet : jsstring) (st : Crypto) :
  charSet <> [] ->
  getRandomChar charSet st
  = (Some (drawnChar charSet st 0),
     mkCrypto (entropy st) (consumed st + 1)).
Proof.
  intros Hne. unfold getRandomChar, bind, getRandomValues, ret, drawnChar.
  cbn [seq map nth]. f_equal.
  set (idx := (uint32 (entropy st (consumed st + 0))
               mod Z.of_nat (List.length charSet))%Z).
  assert (0 <= idx < Z.of_nat (List.length charSet))%Z as Hidx.
  { apply Z.mod_pos_bound. destruct charSet; [congruence | cbn; lia]. }
  unfold charAt. destruct (Z.ltb_spec idx 0) as [Hneg | _]; [lia |].
  apply nth_error_nth'. lia.
Qed.

Lemma drawLoop_exact (charSet : jsstring) :
  charSet <> [] ->
  forall remaining password st,
    drawLoop remaining charSet password st
    = ((password ++ map (drawnChar charSet st) (seq 0 remaining))%list,
       mkCrypto (entropy st) (consumed st + remaining)).
Proof.
  intros Hne. induction remaining as [| k IH]; intros password st.
  - cbn. rewrite app_nil_r, Nat.add_0_r. destruct st; reflexivity.
  - cbn [drawLoop]. unfold bind at 1.
    rewrite (getRandomChar_exact charSet st Hne), IH.
    cbn [appendValue entropy consumed]. rewrite <- app_assoc.
    cbn [app seq map]. rewrite <- seq_shift, map_map.
    replace (consumed st + 1 + k) with (consumed st + S k) by lia.
    do 3 f_equal. apply map_ext. intros i. unfold drawnChar.
    cbn [entropy consumed].
    replace (consumed st + 1 + i) with (consumed st + S i) by lia.
    reflexivity.
Qed.

(** X1: when some class is selected, the call returns the string whose
    character at position i is [charSet[v_i mod charSet.length]], where
    v_i is the i-th value read from the random source as a 32-bit
    unsigned integer; exactly [length] values are read. *)
Theorem generatePassword_exact (options : Options) (st : Crypto) :
  charSetOf options <> [] ->
  generatePassword options st
  = (Return (map (drawnChar (charSetOf options) st)
               (seq 0 (Z.to_nat (lengthOf options)))),
     mkCrypto (entropy st) (consumed st + Z.to_nat (lengthOf options))).
Proof.
  intros Hne. unfold generatePassword.
  destruct (charSetOf options) as [| c0 cs] eqn:E; [congruence |].
  cbn [List.length Nat.eqb]. unfold bind.
  rewrite drawLoop_exact by discriminate. reflexivity.
Qed.

Lemma generatePassword_exact_witness :
  generatePassword fourSimilarFree (constantSource 5)
  = (Return (units "FFFF"), mkCrypto (fun _ => 5%Z) 4).
Proof.
  rewrite (generatePassword_exact fourSimilarFree (constantSource 5)).
  - reflexivity.
  - vm_compute. discriminate.
Defined.

(** X2: a length of zero or below is not an error: with some class
    selected the call returns the empty string and reads nothing, and
    with none selected it still throws. *)
Theorem generatePassword_nonpositive_length (options : Options) (st : Crypto) :
  (lengthOf options <= 0)%Z ->
  (charSetOf options <> [] ->
   generatePassword options st = (Return [], st))
  /\ (charSetOf options = [] ->
      generatePassword options st = (Throw emptyCharSetMessage, st)).
Proof.
  intros Hlen. split.
  - intros Hne. rewrite generatePassword_exact by assumption.
    replace (Z.to_nat (lengthOf options)) with 0 by lia.
    cbn. rewrite Nat.add_0_r. destruct st; reflexivity.
  - apply generatePassword_throws.
Qed.

Lemma generatePassword_nonpositive_length_witness :
  generatePassword
    (mkOptions (Some (-3)%Z) None None None None None None)
    (constantSource 5)
  = (Return [], constantSource 5).
Proof.
  apply (generatePassword_nonpositive_length
           (mkOptions (Some (-3)%Z) None None None None None None)
           (constantSource 5)).
  - vm_compute. discriminate.
  - vm_compute. discriminate.
Defined.

Lemma nodup_check (l : jsstring) : nodup Z.eq_dec l = l -> NoDup l.
Proof. intros E. rewrite <- E. apply NoDup_nodup. Qed.

(** X3: whatever the six flags, the character set has no repeated
    character, and when it is not empty it has between 8 and 91
    characters. *)
Theorem buildCharSet_distinct (iu il inum isym es ea : bool) :
  NoDup (buildCharSet iu il inum isym es ea)
  /\ (buildCharSet iu il inum isym es ea <> [] ->
      8 <= List.length (buildCharSet iu il inum isym es ea) <= 91).
Proof.
  split.
  - apply nodup_check.
    destruct iu, il, inum, isym, es, ea; vm_compute; reflexivity.
  - destruct iu, il, inum, isym, es, ea; intros Hne;
      solve [ vm_compute; lia | exfalso; apply Hne; reflexivity ].
Qed.

Lemma buildCharSet_distinct_witness :
  8 <= List.length (buildCharSet false false true false true false) <= 91.
Proof.
  apply (proj2 (buildCharSet_distinct false false true false true false)).
  vm_compute. discriminate.
Defined.

Lemma incl_check (small big : jsstring) :
  forallb (fun c => memZ c big) small = true -> incl small big.
Proof.
  rewrite forallb_forall. intros H c Hc. specialize (H c Hc).
  unfold memZ in H. apply existsb_exists in H as (c' & Hc' & E).
  apply Z.eqb_eq in E. subst c'. exact Hc'.
Qed.

(** X4: the two exclusion flags only remove characters: the set built
    with any exclusions is contained in the set built with the same
    classes and no exclusion. *)
Theorem buildCharSet_exclusions_shrink (iu il inum isym es ea : bool) :
  incl (buildCharSet iu il inum isym es ea)
       (buildCharSet iu il inum isym false false).
Proof.
  apply incl_check.
  destruct iu, il, inum, isym, es, ea; vm_compute; reflexivity.
Qed.

End GeneratorExtras.

Section ModuloBias.

Local Open Scope Z_scope.

Lemma mod_preimages (N n i v : Z) :
  0 < n -> 0 <= i < n -> 0 <= v < N ->
  (v mod n = i
   <-> exists k,
         0 <= k < N / n + (if i <? N mod n then 1 else 0)
         /\ v = i + k * n).
Proof.
  intros Hn Hi Hv.
  pose proof (Z.div_mod N n ltac:(lia)) as HN.
  pose proof (Z.mod_pos_bound N n Hn) as HNr.
  split.
  - intros Hmod. exists (v / n).
    pose proof (Z.div_mod v n ltac:(lia)) as Hvq.
    pose proof (Z.div_pos v n ltac:(lia) Hn) as Hq.
    rewrite Hmod in Hvq.
    split; [| lia]. split; [exact Hq |].
    destruct (Z.ltb_spec i (N mod n)); nia.
  - intros (k & Hk & ->).
    rewrite Z.mod_add by lia. apply Z.mod_small. exact Hi.
Qed.

(** X5: the remainder does not pick the characters equally often.  For a
    set of n distinct characters, the 32-bit values that select the
    character at index i are exactly i, i + n, i + 2n, ..., and there are
    [2^32 / n] of them, plus one when [i < 2^32 mod n]. *)
Theorem getRandomChar_preimages
    (charSet : jsstring) (st : Crypto) (i : nat) :
  NoDup charSet ->
  (i < List.length charSet)%nat ->
  (fst (getRandomChar charSet st) = nth_error charSet i
   <-> exists k,
         0 <= k < preimages (Z.of_nat (List.length charSet)) (Z.of_nat i)
         /\ uint32 (entropy st (consumed st))
            = Z.of_nat i + k * Z.of_nat (List.length charSet)).
Proof.
  intros Hnodup Hi.
  assert (charSet <> []) as Hne by (destruct charSet; [cbn in Hi; lia | discriminate]).
  rewrite getRandomChar_exact by assumption. cbn [fst].
  rewrite (nth_error_nth' charSet 0%Z Hi).
  unfold drawnChar, preimages. rewrite Nat.add_0_r.
  set (v := uint32 (entropy st (consumed st))).
  set (n := Z.of_nat (List.length charSet)).
  assert (0 < n) as Hn by lia.
  pose proof (Z.mod_pos_bound v n Hn) as Hidx.
  rewrite <- (mod_preimages (2 ^ 32) n (Z.of_nat i) v Hn ltac:(lia)
                (uint32_range _)).
  split.
  - intros E. injection E as E.
    apply (proj1 (NoDup_nth charSet 0%Z) Hnodup) in E; lia.
  - intros E. rewrite E, Nat2Z.id. reflexivity.
Qed.

Lemma getRandomChar_preimages_witness :
  fst (getRandomChar (units "abc") (constantSource 4294967295))
  = nth_error (units "abc") 0.
Proof.
  apply (getRandomChar_preimages (units "abc")
           (constantSource 4294967295) 0).
  - apply nodup_check. reflexivity.
  - cbn. lia.
  - exists 1431655765. vm_compute. intuition congruence.
Defined.

End ModuloBias.

(** * Further properties of the scorer *)

Section ScorerExtras.

Local Open Scope R_scope.

Lemma pushIf_app (condition : bool) (message : string) (fb : list string) :
  pushIf condition message fb
  = (fb ++ (if condition then [message] else []))%list.
Proof. destruct condition; cbn; rewrite ?app_nil_r; reflexivity. Qed.

Lemma optional_nil (condition : bool) (message : string) :
  (if condition then [message] else []) = [] <-> condition = false.
Proof. destruct condition; split; intros H; congruence. Qed.

Lemma optional_length (condition : bool) (message : string) :
  List.length (if condition then [message] else []) = Nat.b2n condition.
Proof. destruct condition; reflexivity. Qed.

(** The seven [if] blocks, as one concatenation. *)
Lemma feedbackOf_app (password : jsstring) :
  feedbackOf password
  = ((if (List.length password <? 8)%nat then [msgLength8] else [])
     ++ (if (List.length password <? 12)%nat then [msgLength12] else [])
     ++ (if negb (hasLower password) then [msgLowercase] else [])
     ++ (if negb (hasUpper password) then [msgUppercase] else [])
     ++ (if negb (hasDigit password) then [msgDigit] else [])
     ++ (if negb (hasOther password) then [msgSymbol] else [])
     ++ (if (if Rlt_dec (uniqueRatio password) (1 / 2) then true else false)
         then [msgDistinct] else []))%list.
Proof.
  unfold feedbackOf. rewrite !pushIf_app. cbn [app].
  rewrite <- !app_assoc. reflexivity.
Qed.

(** [uniqueChars / length < 0.5] compares twice the count with the
    length. *)
Lemma uniqueRatio_lt_half (password : jsstring) :
  password <> [] ->
  (uniqueRatio password < 1 / 2
   <-> (2 * uniqueChars password < List.length password)%nat).
Proof.
  intros Hne. pose proof (length_pos password Hne) as Hn.
  unfold uniqueRatio. split.
  - intros H. apply INR_lt. rewrite mult_INR. cbn [INR].
    apply (Rmult_lt_compat_r (INR (List.length password))) in H; [| exact Hn].
    unfold Rdiv in H. rewrite Rmult_assoc, Rinv_l in H by lra. lra.
  - intros H. apply lt_INR in H. rewrite mult_INR in H. cbn [INR] in H.
    apply (Rmult_lt_reg_r (INR (List.length password))); [exact Hn |].
    unfold Rdiv. rewrite Rmult_assoc, Rinv_l by lra. lra.
Qed.

Lemma uniqueRatio_le_1 (password : jsstring) :
  password <> [] -> uniqueRatio password <= 1.
Proof.
  intros Hne. pose proof (length_pos password Hne) as Hn.
  unfold uniqueRatio.
  apply (Rmult_le_reg_r (INR (List.length password))); [exact Hn |].
  unfold Rdiv. rewrite Rmult_assoc, Rinv_l by lra.
  pose proof (le_INR _ _ (uniqueChars_le password)). lra.
Qed.

Lemma feedbackOf_nil_iff (password : jsstring) :
  password <> [] ->
  (feedbackOf password = []
   <-> (12 <= List.length password)%nat
       /\ hasLower password = true /\ hasUpper password = true
       /\ hasDigit password = true /\ hasOther password = true
       /\ (List.length password <= 2 * uniqueChars password)%nat).
Proof.
  intros Hne. rewrite feedbackOf_app.
  pose proof (uniqueRatio_lt_half password Hne) as Hhalf.
  split.
  - intros H.
    repeat (apply app_eq_nil in H; destruct H as [?H H]).
    repeat match goal with
           | E : (if _ then [_] else []) = [] |- _ =>
               apply optional_nil in E
           end.
    apply Nat.ltb_ge in H1.
    apply negb_false_iff in H2, H3, H4, H5.
    destruct (Rlt_dec (uniqueRatio password) (1 / 2)) as [Hlt | Hge];
      [discriminate |].
    repeat split; try assumption.
    destruct (Nat.le_gt_cases (List.length password)
                (2 * uniqueChars password)) as [Hle | Hgt]; [exact Hle |].
    exfalso. apply Hge, Hhalf, Hgt.
  - intros (Hlen & Hl & Hu & Hd & Ho & Huniq).
    rewrite Hl, Hu, Hd, Ho.
    replace (List.length password <? 8)%nat with false
      by (symmetry; apply Nat.ltb_ge; lia).
    replace (List.length password <? 12)%nat with false
      by (symmetry; apply Nat.ltb_ge; lia).
    destruct (Rlt_dec (uniqueRatio password) (1 / 2)) as [Hlt | Hge];
      [| reflexivity].
    apply Hhalf in Hlt. lia.
Qed.

(** X6: the report carries no suggestion exactly when the string is
    empty, or has at least 12 code units, all four classes, and at least
    half as many distinct characters as code units. *)
Theorem feedback_empty_iff (password : jsstring) :
  feedback (calculatePasswordStrength password) = []
  <-> password = []
      \/ ((12 <= List.length password)%nat
          /\ hasLower password = true /\ hasUpper password = true
          /\ hasDigit password = true /\ hasOther password = true
          /\ (List.length password <= 2 * uniqueChars password)%nat).
Proof.
  destruct password as [| c rest].
  - split; [left; reflexivity | reflexivity].
  - change (feedback (calculatePasswordStrength (c :: rest)))
      with (feedbackOf (c :: rest)).
    rewrite feedbackOf_nil_iff by discriminate.
    split; [intros H; right; exact H |].
    intros [H | H]; [discriminate | exact H].
Qed.

Lemma string_nodup_check (l : list string) :
  nodup string_dec l = l -> NoDup l.
Proof. intros E. rewrite <- E. apply NoDup_nodup. Qed.

(** X7: the suggestions are drawn from the seven messages of the source,
    none occurs twice, and there are never more than six of them, since a
    non-empty string always has one of the four classes. *)
Theorem feedback_at_most_six (password : jsstring) :
  incl (feedback (calculatePasswordStrength password)) allMessages
  /\ NoDup (feedback (calculatePasswordStrength password))
  /\ (List.length (feedback (calculatePasswordStrength password)) <= 6)%nat.
Proof.
  destruct password as [| c rest].
  - cbn. repeat split; [intros m [] | constructor | lia].
  - change (feedback (calculatePasswordStrength (c :: rest)))
      with (feedbackOf (c :: rest)).
    pose proof (some_class_present (c :: rest) ltac:(discriminate)) as Hcls.
    rewrite feedbackOf_app.
    destruct (List.length (c :: rest) <? 8)%nat,
             (List.length (c :: rest) <? 12)%nat,
             (hasLower (c :: rest)), (hasUpper (c :: rest)),
             (hasDigit (c :: rest)), (hasOther (c :: rest)),
             (Rlt_dec (uniqueRatio (c :: rest)) (1 / 2));
      try discriminate Hcls; cbn [negb app];
      (split; [| split];
       [ apply incl_Forall_in_iff;
         repeat (constructor; [cbn; tauto |]); constructor
       | apply string_nodup_check; vm_compute; reflexivity
       | cbn; lia ]).
Qed.


Lemma levelOf_cases (x : R) :
  (x < 40 /\ levelOf x = "weak"%string)
  \/ (40 <= x < 60 /\ levelOf x = "medium"%string)
  \/ (60 <= x < 80 /\ levelOf x = "strong"%string)
  \/ (80 <= x /\ levelOf x = "very-strong"%string).
Proof.
  unfold levelOf.
  destruct (Rle_dec 80 x); [right; right; right; split; [lra | reflexivity] |].
  destruct (Rle_dec 60 x); [right; right; left; split; [lra | reflexivity] |].
  destruct (Rle_dec 40 x); [right; left; split; [lra | reflexivity] |].
  left. split; [lra | reflexivity].
Qed.

Lemma lengthBonus_long (password : jsstring) :
  (16 <= List.length password)%nat -> 30 <= lengthBonus password.
Proof.
  intros H. unfold lengthBonus.
  destruct (Nat.leb_spec 8 (List.length password)); [| lia].
  destruct (Nat.leb_spec 12 (List.length password)); [| lia].
  destruct (Nat.leb_spec 16 (List.length password)); [| lia].
  destruct (20 <=? List.length password)%nat; lra.
Qed.

Lemma lengthBonus_short (password : jsstring) :
  (List.length password < 8)%nat -> lengthBonus password = 0.
Proof.
  intros H. unfold lengthBonus.
  destruct (Nat.leb_spec 8 (List.length password)); [lia |].
  destruct (Nat.leb_spec 12 (List.length password)); [lia |].
  destruct (Nat.leb_spec 16 (List.length password)); [lia |].
  destruct (Nat.leb_spec 20 (List.length password)); [lia | reflexivity].
Qed.



(** X9: whatever the configuration and the random values, a returned
    password of 16 characters or more scores at least 40 and is never
    rated weak. *)
Theorem generated_long_not_weak
    (options : Options) (st st' : Crypto) (password : jsstring) :
  (16 <= lengthOf options)%Z ->
  generatePassword options st = (Return password, st') ->
  40 <= score (calculatePasswordStrength password)
  /\ level (calculatePasswordStrength password) <> "weak"%string.
Proof.
  intros Hlen Hrun.
  assert (16 <= List.length password)%nat as Hlong.
  { destruct (charSetOf options) as [| c0 cs] eqn:E.
    - rewrite generatePassword_throws in Hrun by assumption. discriminate.
    - destruct (generatePassword_returns options st) as (p & Hp & Hlp & _).
      + rewrite E. discriminate.
      + rewrite Hp in Hrun. injection Hrun as <- _. lia. }
  assert (password <> []) as Hne by (intros ->; cbn in Hlong; lia).
  assert (40 <= clampScore (rawScore password)) as Hscore.
  { unfold clampScore. apply Rmin_glb; [| lra].
    eapply Rle_trans; [| apply Rmax_l]. unfold rawScore.
    pose proof (lengthBonus_long password Hlong).
    pose proof (classBonus_min password Hne).
    pose proof (uniquenessBonus_range password).
    pose proof (entropyBonus_nonneg password Hne). lra. }
  destruct password as [| c rest]; [congruence |].
  cbn [calculatePasswordStrength score level].
  split; [exact Hscore |].
  destruct (levelOf_cases (clampScore (rawScore (c :: rest))))
    as [[H _] | [[_ ->] | [[_ ->] | [_ ->]]]];
    [lra | discriminate | discriminate | discriminate].
Qed.

Lemma generated_long_not_weak_witness :
  40 <= score (calculatePasswordStrength (units "AAAAAAAAAAAAAAAA"))
  /\ level (calculatePasswordStrength (units "AAAAAAAAAAAAAAAA"))
     <> "weak"%string.
Proof.
  apply (generated_long_not_weak noOptions (constantSource 0)
           (mkCrypto (fun _ => 0%Z) 16)).
  - vm_compute. discriminate.
  - vm_compute. reflexivity.
Defined.

(** X10: a string shorter than 8 code units scores at most 70 and is
    never rated very strong. *)
Theorem short_not_very_strong (password : jsstring) :
  (List.length password < 8)%nat ->
  score (calculatePasswordStrength password) <= 70
  /\ level (calculatePasswordStrength password) <> "very-strong"%string.
Proof.
  intros Hshort. destruct password as [| c rest].
  - cbn. split; [lra | discriminate].
  - assert (clampScore (rawScore (c :: rest)) <= 70) as Hscore.
    { unfold clampScore. eapply Rle_trans; [apply Rmin_l |].
      apply Rmax_lub; [| lra]. unfold rawScore.
      rewrite (lengthBonus_short _ Hshort).
      pose proof (classBonus_range (c :: rest)).
      pose proof (uniquenessBonus_range (c :: rest)).
      pose proof (entropyBonus_le (c :: rest)). lra. }
    cbn [calculatePasswordStrength score level].
    split; [exact Hscore |].
    destruct (levelOf_cases (clampScore (rawScore (c :: rest))))
      as [[_ ->] | [[_ ->] | [[_ ->] | [H _]]]];
      [discriminate | discriminate | discriminate | lra].
Qed.

Lemma short_not_very_strong_witness :
  score (calculatePasswordStrength mixedThree) <= 70
  /\ level (calculatePasswordStrength mixedThree) <> "very-strong"%string.
Proof.
  apply (short_not_very_strong mixedThree). vm_compute. lia.
Defined.

(** X11: the [Math.min(..., 20)] of the uniqueness bonus never takes
    effect: for a non-empty string the number of distinct characters is
    at most the length, so the bonus is [uniqueChars / length * 20]. *)
Theorem uniqueness_cap_idle (password : jsstring) :
  password <> [] ->
  (uniqueChars password <= List.length password)%nat
  /\ uniquenessBonus password = uniqueRatio password * 20.
Proof.
  intros Hne. split; [apply uniqueChars_le |].
  unfold uniquenessBonus. apply Rmin_left.
  pose proof (uniqueRatio_le_1 password Hne). lra.
Qed.

Lemma uniqueness_cap_idle_witness :
  uniquenessBonus eightA = uniqueRatio eightA * 20.
Proof.
  apply (proj2 (uniqueness_cap_idle eightA ltac:(discriminate))).
Defined.

(** X12: for every string, the level of its report is one of the four
    names, fixed by the score thresholds 40, 60 and 80, and
    [getStrengthLabel] and [getStrengthColor] answer from their tables:
    neither takes its fallback for an unknown level. *)
Theorem report_label_and_color (password : jsstring) :
  let report := calculatePasswordStrength password in
  (score report < 40 /\ level report = "weak"%string
   /\ getStrengthLabel (level report) = Label "弱"
   /\ getStrengthColor report = "#ef4444"%string)
  \/ (40 <= score report < 60 /\ level report = "medium"%string
      /\ getStrengthLabel (level report) = Label "中等"
      /\ getStrengthColor report = "#f59e0b"%string)
  \/ (60 <= score report < 80 /\ level report = "strong"%string
      /\ getStrengthLabel (level report) = Label "强"
      /\ getStrengthColor report = "#3b82f6"%string)
  \/ (80 <= score report /\ level report = "very-strong"%string
      /\ getStrengthLabel (level report) = Label "非常强"
      /\ getStrengthColor report = "#10b981"%string).
Proof.
  cbn zeta. destruct password as [| c rest].
  - left. cbn [calculatePasswordStrength score level].
    repeat split; solve [lra | reflexivity].
  - cbn [calculatePasswordStrength score level]. unfold getStrengthColor.
    cbn [level].
    destruct (levelOf_cases (clampScore (rawScore (c :: rest))))
      as [[H ->] | [[H ->] | [[H ->] | [H ->]]]];
      [ left | right; left | right; right; left | right; right; right ];
      repeat split; solve [ lra | reflexivity ].
Qed.

End ScorerExtras.

(** * Properties of the component *)

Section AppProperties.

Local Open Scope Z_scope.

Lemma clampLength_range (parsed : ParsedInt) : 4 <= clampLength parsed <= 128.
Proof.
  destruct parsed as [| v | negative]; cbn [clampLength].
  - lia.
  - destruct v; lia.
  - destruct negative; lia.
Qed.

(** X14: whatever [parseInt] returned, [handleLengthChange] stores a
    length between 4 and 128 and leaves each of the six flags as it was;
    an integer already in that range is stored as it is, and [NaN] and
    [0] become 16. *)
Theorem handleLengthChange_clamps (parsed : ParsedInt) (prev : Options) :
  opt_length (handleLengthChange parsed prev) = Some (clampLength parsed)
  /\ 4 <= clampLength parsed <= 128
  /\ 4 <= lengthOf (handleLengthChange parsed prev) <= 128
  /\ opt_includeUppercase (handleLengthChange parsed prev)
     = opt_includeUppercase prev
  /\ opt_includeLowercase (handleLengthChange parsed prev)
     = opt_includeLowercase prev
  /\ opt_includeNumbers (handleLengthChange parsed prev)
     = opt_includeNumbers prev
  /\ opt_includeSymbols (handleLengthChange parsed prev)
     = opt_includeSymbols prev
  /\ opt_excludeSimilar (handleLengthChange parsed prev)
     = opt_excludeSimilar prev
  /\ opt_excludeAmbiguous (handleLengthChange parsed prev)
     = opt_excludeAmbiguous prev
  /\ charSetOf (handleLengthChange parsed prev) = charSetOf prev
  /\ (forall v, parsed = Int v -> 4 <= v <= 128 ->
      lengthOf (handleLengthChange parsed prev) = v)
  /\ (parsed = NaN \/ parsed = Int 0 ->
      lengthOf (handleLengthChange parsed prev) = 16).
Proof.
  split; [reflexivity |].
  split; [apply clampLength_range |].
  split; [apply clampLength_range |].
  do 7 (split; [reflexivity |]).
  split.
  - intros v -> Hv. cbn. destruct v; lia.
  - intros [-> | ->]; reflexivity.
Qed.

Lemma handleLengthChange_clamps_witness :
  lengthOf (handleLengthChange (Int 64) noOptions) = 64
  /\ lengthOf (handleLengthChange NaN noOptions) = 16.
Proof.
  pose proof (handleLengthChange_clamps (Int 64) noOptions)
    as (_ & _ & _ & _ & _ & _ & _ & _ & _ & _ & Hkeep & _).
  pose proof (handleLengthChange_clamps NaN noOptions)
    as (_ & _ & _ & _ & _ & _ & _ & _ & _ & _ & _ & Hfalsy).
  split.
  - apply (Hkeep 64); [reflexivity | lia].
  - apply Hfalsy. left. reflexivity.
Defined.

Lemma generateNewPassword_cases (s : AppState) (st : Crypto) :
  (charSetOf (app_options s) = []
   /\ generateNewPassword s st = (s, st))
  \/ (charSetOf (app_options s) <> []
      /\ exists newPassword st',
           generateNewPassword s st
           = (mkApp newPassword (calculatePasswordStrength newPassword)
                (app_options s), st')
           /\ List.length newPassword = Z.to_nat (lengthOf (app_options s))
           /\ Forall (fun c => In c (charSetOf (app_options s))) newPassword).
Proof.
  unfold generateNewPassword, bind.
  destruct (charSetOf (app_options s)) as [| c0 cs] eqn:E.
  - left. rewrite generatePassword_throws by assumption.
    split; reflexivity.
  - right. split; [discriminate |].
    destruct (generatePassword_returns (app_options s) st)
      as (p & Hp & Hlen & Hall).
    + rewrite E. discriminate.
    + rewrite Hp. exists p. eexists. rewrite <- E. repeat split; assumption.
Qed.

Lemma generateNewPassword_consistent (s : AppState) (st : Crypto) :
  consistent s -> lengthInRange s \/ charSetOf (app_options s) <> [] ->
  consistent (fst (generateNewPassword s st))
  /\ lengthInRange (fst (generateNewPassword s st)).
Proof.
  intros [Hstrength Hrange] Hpw.
  destruct (generateNewPassword_cases s st)
    as [[Hempty ->] | [_ (p & st' & -> & Hlen & _)]]; cbn [fst].
  - split; [split; assumption |]. destruct Hpw; [assumption | contradiction].
  - split; [split; [reflexivity | exact Hrange] |].
    unfold lengthInRange. cbn [app_password]. lia.
Qed.

Lemma generateNewPassword_fits (s : AppState) (st : Crypto) :
  charSetOf (app_options (fst (generateNewPassword s st))) = []
  \/ fitsOptions (fst (generateNewPassword s st)).
Proof.
  destruct (generateNewPassword_cases s st)
    as [[Hempty ->] | [_ (p & st' & -> & Hlen & Hall)]]; cbn [fst].
  - left. exact Hempty.
  - right. split; cbn [app_password app_options]; assumption.
Qed.

Lemma generateNewPassword_options (s : AppState) (st : Crypto) :
  app_options (fst (generateNewPassword s st)) = app_options s.
Proof.
  destruct (generateNewPassword_cases s st)
    as [[_ ->] | [_ (p & st' & -> & _)]]; reflexivity.
Qed.

Lemma handleEvent_as_generate (e : Event) (s : AppState) :
  handleEvent e s
  = generateNewPassword
      (mkApp (app_password s) (app_strength s)
         (optionsAfter e (app_options s))).
Proof. destruct e, s; reflexivity. Qed.

Lemma optionsAfter_length (e : Event) (prev : Options) :
  4 <= lengthOf prev <= 128 -> 4 <= lengthOf (optionsAfter e prev) <= 128.
Proof.
  intros H. destruct e as [parsed | key checked |]; cbn [optionsAfter].
  - apply clampLength_range.
  - destruct key; exact H.
  - exact H.
Qed.

Lemma handleEvent_consistent (e : Event) (s : AppState) (st : Crypto) :
  consistent s -> lengthInRange s ->
  consistent (fst (handleEvent e s st))
  /\ lengthInRange (fst (handleEvent e s st)).
Proof.
  intros [Hstrength Hrange] Hpw. rewrite handleEvent_as_generate.
  apply generateNewPassword_consistent.
  - split; [exact Hstrength | apply optionsAfter_length, Hrange].
  - left. exact Hpw.
Qed.

Lemma handleEvents_step (e : Event) (rest : list Event)
    (s : AppState) (st : Crypto) :
  handleEvents (e :: rest) s st
  = handleEvents rest (fst (handleEvent e s st)) (snd (handleEvent e s st)).
Proof.
  cbn [handleEvents]. unfold bind.
  destruct (handleEvent e s st). reflexivity.
Qed.

Lemma mount_consistent (st : Crypto) :
  consistent (fst (mount st)) /\ lengthInRange (fst (mount st)).
Proof.
  unfold mount, bind.
  destruct (generateNewPassword initialState st) as [s1 st1] eqn:E1.
  assert (consistent s1 /\ lengthInRange s1) as [Hc Hl].
  { replace s1 with (fst (generateNewPassword initialState st))
      by (rewrite E1; reflexivity).
    apply generateNewPassword_consistent.
    - split; [reflexivity | cbn; lia].
    - right. vm_compute. discriminate. }
  apply generateNewPassword_consistent; [exact Hc | left; exact Hl].
Qed.

(** X15: from mounting on, after any sequence of slider moves, checkbox
    changes and clicks on the regenerate button, and whatever the random
    values, the strength shown is that of the password shown, the
    password has between 4 and 128 characters, and so has the stored
    length. *)
Theorem session_consistent (events : list Event) (st : Crypto) :
  let s := fst (session events st) in
  app_strength s = calculatePasswordStrength (app_password s)
  /\ (4 <= List.length (app_password s) <= 128)%nat
  /\ 4 <= lengthOf (app_options s) <= 128.
Proof.
  cbn zeta. unfold session, bind.
  pose proof (mount_consistent st) as Hmount.
  destruct (mount st) as [s0 st0]. cbn [fst] in Hmount.
  enough (consistent (fst (handleEvents events s0 st0))
          /\ lengthInRange (fst (handleEvents events s0 st0)))
    as [[H1 H3] H2] by (repeat split; assumption || apply H2 || apply H3).
  revert s0 st0 Hmount.
  induction events as [| e rest IH]; intros s0 st0 [Hc Hl].
  - split; assumption.
  - rewrite handleEvents_step. apply IH.
    apply handleEvent_consistent; assumption.
Qed.

(** X16: after mounting and after any sequence of events, each followed
    by the regeneration it triggers, either no character class is
    selected, or the password in the state was drawn for the options in
    the state: it has the stored length and all its characters are in
    the character set of the stored options.  (The render between a
    change of options and its effect, which still holds the previous
    password, is not one of these states.) *)
Theorem session_fits_options (events : list Event) (st : Crypto) :
  let s := fst (session events st) in
  charSetOf (app_options s) = []
  \/ (Z.of_nat (List.length (app_password s)) = lengthOf (app_options s)
      /\ Forall (fun c => In c (charSetOf (app_options s)))
                (app_password s)).
Proof.
  cbn zeta.
  pose proof (session_consistent events st) as (_ & _ & Hrange).
  cbn zeta in Hrange.
  enough (charSetOf (app_options (fst (session events st))) = []
          \/ fitsOptions (fst (session events st))) as [H | [Hlen Hall]].
  { left. exact H. }
  { right. split; [lia | exact Hall]. }
  clear Hrange. unfold session, bind.
  assert (charSetOf (app_options (fst (mount st))) = []
          \/ fitsOptions (fst (mount st))) as Hmount.
  { unfold mount, bind.
    destruct (generateNewPassword initialState st) as [s1 st1].
    apply generateNewPassword_fits. }
  destruct (mount st) as [s0 st0]. cbn [fst] in Hmount.
  revert s0 st0 Hmount.
  induction events as [| e rest IH]; intros s0 st0 H0.
  - exact H0.
  - rewrite handleEvents_step. apply IH.
    rewrite handleEvent_as_generate. apply generateNewPassword_fits.
Qed.

(** X17: an event that leaves no character class selected changes the
    options only: the password and the strength shown stay those of
    before, and no random value is read. *)
Theorem handleEvent_nothing_selected
    (e : Event) (s : AppState) (st : Crypto) :
  charSetOf (optionsAfter e (app_options s)) = [] ->
  handleEvent e s st
  = (mkApp (app_password s) (app_strength s)
       (optionsAfter e (app_options s)), st).
Proof.
  intros Hempty. rewrite handleEvent_as_generate.
  unfold generateNewPassword, bind. cbn [app_options].
  rewrite generatePassword_throws by assumption. reflexivity.
Qed.

Lemma handleEvent_nothing_selected_witness :
  handleEvent (CheckboxChanged IncludeSymbols false)
    (mkApp (units "abc") (calculatePasswordStrength (units "abc"))
       (mkOptions (Some 8) (Some false) (Some false) (Some false)
          (Some true) None None))
    (constantSource 7)
  = (mkApp (units "abc") (calculatePasswordStrength (units "abc"))
       (mkOptions (Some 8) (Some false) (Some false) (Some false)
          (Some false) None None),
     constantSource 7).
Proof.
  apply (handleEvent_nothing_selected
           (CheckboxChanged IncludeSymbols false)
           (mkApp (units "abc") (calculatePasswordStrength (units "abc"))
              (mkOptions (Some 8) (Some false) (Some false) (Some false)
                 (Some true) None None))
           (constantSource 7)).
  reflexivity.
Defined.

End AppProperties.
